(** * Arena allocator: a shallow embedding of [src/src/arena.c]

    The C code is modelled over a flat byte-addressed memory with 64-bit
    pointers and a 64-bit [size_t] (LP64).  Every [size_t] and pointer
    computation is written with its wrap-around.  The C library calls are
    modelled as follows:

    - [malloc] and [realloc] are answered by the environment: each function
      that calls one of them takes the answer ([None] for a NULL result,
      [Some p] for a block at address [p]) as an extra first argument;
    - [realloc] moves the first [min old new] bytes of the block;
    - [memset] overwrites the bytes of its range;
    - an integer division by zero is a trap ([Fault DivisionByZero]). *)

From Stdlib Require Import ZArith Lia Bool List.
From Stdlib Require Import Floats.SpecFloat.
Import ListNotations.

Local Open Scope Z_scope.

(** ** Machine words *)

Module Word.

Definition bits : Z := 64.
Definition modulus : Z := 2 ^ bits.

(** Reduction of an integer to a [size_t] / pointer value. *)
Definition wrap (z : Z) : Z := z mod modulus.

Definition add (a b : Z) : Z := wrap (a + b).
Definition sub (a b : Z) : Z := wrap (a - b).
Definition mul (a b : Z) : Z := wrap (a * b).

End Word.

Definition NULL : Z := 0.

(** ** Faults and results *)

Inductive fault : Type :=
| DivisionByZero.

Inductive outcome (A : Type) : Type :=
| Fault (f : fault)
| Done (a : A).

Arguments Fault {A} f.
Arguments Done {A} a.

Definition bind {A B : Type} (o : outcome A) (k : A -> outcome B) : outcome B :=
  match o with
  | Fault f => Fault f
  | Done a => k a
  end.

Notation "x <- o ;; k" := (bind o (fun x => k))
  (at level 61, o at next level, right associativity).

(** The C operator [%] on [size_t]. *)
Definition size_t_rem (a b : Z) : outcome Z :=
  if b =? 0 then Fault DivisionByZero else Done (a mod b).

(** ** Memory *)

Definition byte : Type := Byte.byte.
Definition mem : Type := Z -> byte.

(** [addr_in p n a]: address [a] is one of the [n] bytes starting at [p]. *)
Definition addr_in (p n a : Z) : bool := Word.sub a p <? n.

(** [memset(p, 0, n)]. *)
Definition memset_zero (m : mem) (p n : Z) : mem :=
  fun a => if addr_in p n a then Byte.x00 else m a.

(** The effect on memory of a successful [realloc] of the block of [old_n]
    bytes at [old_p] into a block of [new_n] bytes at [new_p]. *)
Definition realloc_move (m : mem) (old_p old_n new_p new_n : Z) : mem :=
  fun a =>
    if addr_in new_p (Z.min old_n new_n) a
    then m (Word.add old_p (Word.sub a new_p))
    else m a.

(** ** The data model ([include/arena.h]) *)

Inductive ArenaError : Type :=
| ARENA_SUCCESS
| ARENA_ERROR_ALLOCATION_FAILED
| ARENA_ERROR_REALLOCATION_FAILED.

(** The integer value of an enumerator, as C numbers them. *)
Definition ArenaError_value (e : ArenaError) : Z :=
  match e with
  | ARENA_SUCCESS => 0
  | ARENA_ERROR_ALLOCATION_FAILED => 1
  | ARENA_ERROR_REALLOCATION_FAILED => 2
  end.

(** The C operator [!] on an integer. *)
Definition c_not (v : Z) : bool := v =? 0.

Record Arena : Type := mkArena {
  start : Z;     (* char* start   *)
  current : Z;   (* char* current *)
  size : Z       (* size_t size   *)
}.

(** The program state: the arena record and the memory it points into. *)
Record world : Type := mkWorld {
  arena : Arena;
  heap : mem
}.

(** ** The operations ([src/arena.c]) *)

(** [arena_new]: [r_arena] answers [malloc(sizeof(Arena))], [r_buf] answers
    [malloc(initial_size)]; [None] is the NULL return. *)
Definition arena_new (r_arena r_buf : option Z) (initial_size : Z)
  : option Arena :=
  match r_arena with
  | None => None
  | Some _ =>
      match r_buf with
      | None => None
      | Some b => Some {| start := b; current := b; size := initial_size |}
      end
  end.

(** [arena_grow]: [r] answers [realloc(arena->start, newSize)]. *)
Definition arena_grow (r : option Z) (w : world) (additional_size : Z)
  : ArenaError * world :=
  let a := arena w in
  let newSize := Word.add (size a) additional_size in
  match r with
  | None => (ARENA_ERROR_REALLOCATION_FAILED, w)
  | Some newStart =>
      let usedBytes := Word.sub (current a) (start a) in
      (ARENA_SUCCESS,
       {| arena := {| start := newStart;
                      current := Word.add newStart usedBytes;
                      size := newSize |};
          heap := realloc_move (heap w) (start a) (size a) newStart newSize |})
  end.

(** The alignment adjustment computed at the head of [arena_allocate]. *)
Definition adjustment_of (cur alignment : Z) : outcome Z :=
  r <- size_t_rem cur alignment ;;
  let adjustment := Word.sub alignment r in
  Done (if adjustment =? alignment then 0 else adjustment).

(** The test [arena->current + adjustment + size > arena->start + arena->size]. *)
Definition needs_growth (a : Arena) (adjustment sz : Z) : bool :=
  Word.add (start a) (size a) <? Word.add (Word.add (current a) adjustment) sz.

(** The tail of [arena_allocate], from [void* ptr = ...] on. *)
Definition bump (w : world) (adjustment sz : Z) : Z * world :=
  let a := arena w in
  let ptr := Word.add (current a) adjustment in
  (ptr,
   {| arena := {| start := start a;
                  current := Word.add (current a) (Word.add adjustment sz);
                  size := size a |};
      heap := memset_zero (heap w) ptr sz |}).

(** [arena_allocate]: [r] answers the [realloc] of the growth step, when
    there is one.  The result is the returned pointer and the new state. *)
Definition arena_allocate (r : option Z) (w : world) (sz alignment : Z)
  : outcome (Z * world) :=
  adjustment <- adjustment_of (current (arena w)) alignment ;;
  if needs_growth (arena w) adjustment sz then
    let '(e, w1) :=
      arena_grow r w (Word.add (Word.mul (size (arena w)) 2) adjustment) in
    if c_not (ArenaError_value e)
    then Done (NULL, w1)
    else Done (bump w1 adjustment sz)
  else Done (bump w adjustment sz).

Definition arena_reset (w : world) : world :=
  {| arena := {| start := start (arena w);
                 current := start (arena w);
                 size := size (arena w) |};
     heap := heap w |}.

Definition arena_used (a : Arena) : Z := Word.sub (current a) (start a).

Definition arena_available (a : Arena) : Z :=
  Word.sub (size a) (Word.sub (current a) (start a)).

(** *** Single-precision arithmetic for [arena_utilization] *)

Module F32.

Definition prec : Z := 24.
Definition emax : Z := 128.

(** Conversion of a [size_t] to [float], to nearest even. *)
Definition of_size_t (z : Z) : spec_float := binary_normalize prec emax z 0 false.

Definition div : spec_float -> spec_float -> spec_float := SFdiv prec emax.
Definition mul : spec_float -> spec_float -> spec_float := SFmul prec emax.
Definition leb : spec_float -> spec_float -> bool := SFleb.
Definition ltb : spec_float -> spec_float -> bool := SFltb.

Definition zero : spec_float := S754_zero false.
Definition one : spec_float := of_size_t 1.
Definition hundred : spec_float := of_size_t 100.   (* 100.0f *)

End F32.

Definition arena_utilization (a : Arena) : spec_float :=
  F32.mul (F32.div (F32.of_size_t (arena_used a)) (F32.of_size_t (size a)))
          F32.hundred.

(** ** Observations on the result of a call *)

Definition returned (o : outcome (Z * world)) : option Z :=
  match o with
  | Fault _ => None
  | Done (p, _) => Some p
  end.

Definition arena_after (o : outcome (Z * world)) : option Arena :=
  match o with
  | Fault _ => None
  | Done (_, w) => Some (arena w)
  end.

Definition byte_after (o : outcome (Z * world)) (a : Z) : option byte :=
  match o with
  | Fault _ => None
  | Done (_, w) => Some (heap w a)
  end.

(** ** Well-formedness *)

(** A live arena: its buffer is a block of [size] bytes at a non-null
    address, and the block lies in the address space. *)
Definition live (a : Arena) : Prop :=
  0 < start a /\ 0 <= size a /\ start a + size a < Word.modulus.

(** The data-model invariant [base <= cursor <= base + capacity]. *)
Definition cursor_in_buffer (a : Arena) : Prop :=
  start a <= current a <= start a + size a.

(** Both together: the invariant of the data model. *)
Definition invariant (a : Arena) : Prop := live a /\ cursor_in_buffer a.

Definition is_power_of_two (al : Z) : bool :=
  (0 <? al) && (al =? 2 ^ Z.log2 al).

(** The region of [n] bytes at [p] lies inside the buffer of [a]. *)
Definition region_in_buffer (a : Arena) (p n : Z) : Prop :=
  start a <= p /\ p + n <= start a + size a.

(** [fits a sz al]: the request of [sz] bytes at alignment [al] fits the
    space left in [a], padding included. *)
Definition fits (a : Arena) (sz al : Z) : bool :=
  match adjustment_of (current a) al with
  | Fault _ => false
  | Done adj => current a + adj + sz <=? start a + size a
  end.

(** ** Sequences of operations *)

Inductive op : Type :=
| Allocate (r : option Z) (sz alignment : Z)
| Grow (r : option Z) (additional_size : Z)
| Reset.

Definition step (o : op) (w : world) : outcome world :=
  match o with
  | Allocate r sz al => x <- arena_allocate r w sz al ;; Done (snd x)
  | Grow r n => Done (snd (arena_grow r w n))
  | Reset => Done (arena_reset w)
  end.

(** A block handed out by the allocator lies in the address space. *)
Definition block_ok (p n : Z) : bool := (0 <? p) && (p + n <? Word.modulus).

(** [in_domain o w]: operation [o], run in state [w], overflows no [size_t]
    or address computation, is given only blocks that lie in the address
    space, and, for an allocation that triggers a growth step, is given a
    successful reallocation. *)
Definition in_domain (o : op) (w : world) : bool :=
  let a := arena w in
  match o with
  | Allocate r sz al =>
      match adjustment_of (current a) al with
      | Fault _ => false
      | Done adj =>
          is_power_of_two al && (al <? Word.modulus) && (0 <=? sz)
          && (current a + adj + sz <? Word.modulus)
          && (if needs_growth a adj sz
              then match r with
                   | Some p => block_ok p (size a + (size a * 2 + adj))
                   | None => false
                   end
              else true)
      end
  | Grow r n =>
      (0 <=? n) && (size a + n <? Word.modulus)
      && match r with
         | Some p => block_ok p (size a + n)
         | None => true
         end
  | Reset => true
  end.

(** [reaches w w']: [w'] is reached from [w] by operations in their domain. *)
Inductive reaches (w : world) : world -> Prop :=
| reaches_here : reaches w w
| reaches_step (o : op) (w1 w2 : world) :
    reaches w w1 -> in_domain o w1 = true -> step o w1 = Done w2 ->
    reaches w w2.

Fixpoint run (ops : list op) (w : world) : outcome world :=
  match ops with
  | [] => Done w
  | o :: rest => w1 <- step o w ;; run rest w1
  end.

Definition arena_of (o : outcome world) : option Arena :=
  match o with
  | Fault _ => None
  | Done w => Some (arena w)
  end.

(** The state after one operation (the state itself if the operation traps). *)
Definition after (o : op) (w : world) : world :=
  match step o w with
  | Done w' => w'
  | Fault _ => w
  end.

(** ** Ownership of heap blocks

    The blocks that [malloc] and [realloc] have handed out and [free] has
    not taken back, by address.  [free] and [realloc] are defined on an
    allocated block only: [None] is the call on a block that is not
    allocated.  [realloc] to a new size of 0 is left undefined as well:
    what becomes of the old block then depends on the C library (glibc
    frees it and answers NULL). *)

Definition blocks : Type := list Z.

Definition is_allocated (p : Z) (bs : blocks) : bool := existsb (Z.eqb p) bs.

Definition c_free (p : Z) (bs : blocks) : option blocks :=
  if is_allocated p bs then Some (remove Z.eq_dec p bs) else None.


(** The blocks after [arena_new]: the record, then the buffer; the record
    is freed when the buffer cannot be allocated. *)
Definition arena_new_blocks (r_arena r_buf : option Z) (bs : blocks)
  : option blocks :=
  match r_arena with
  | None => Some bs
  | Some self =>
      match r_buf with
      | None => c_free self (self :: bs)
      | Some b => Some (b :: self :: bs)
      end
  end.








(** ** Concrete states used in the examples *)

Module Ex.

(** Memory holding [0x01] in the sixteen bytes at 4096 and [0x00] elsewhere. *)
Definition ones_at_4096 : mem :=
  fun a => if (4096 <=? a) && (a <? 4112) then Byte.x01 else Byte.x00.

(** The arena made by [arena_new(8)] when the buffer lands at 4096. *)
Definition arena8 : Arena := {| start := 4096; current := 4096; size := 8 |}.
Definition world8 : world := {| arena := arena8; heap := ones_at_4096 |}.

(** A sixteen-byte arena: fresh, half used, and full. *)
Definition fresh16 : Arena := {| start := 4096; current := 4096; size := 16 |}.
Definition half16 : Arena := {| start := 4096; current := 4104; size := 16 |}.
Definition full16 : Arena := {| start := 4096; current := 4112; size := 16 |}.
Definition world_fresh16 : world := {| arena := fresh16; heap := ones_at_4096 |}.
Definition world_half16 : world := {| arena := half16; heap := ones_at_4096 |}.
Definition world_full16 : world := {| arena := full16; heap := ones_at_4096 |}.

(** A buffer whose base is a multiple of 16 but not of 32. *)
Definition base4112 : Arena := {| start := 4112; current := 4112; size := 64 |}.
Definition world4112 : world := {| arena := base4112; heap := ones_at_4096 |}.

(** An additional size whose sum with 16 wraps around to 8. *)
Definition huge : Z := Word.modulus - 8.

(** A run on the fresh sixteen-byte arena: an allocation that fits, an
    allocation that triggers a successful growth step, a direct growth
    whose reallocation fails, and a reset. *)
Definition s1 : world := after (Allocate None 4 4) world_fresh16.
Definition s2 : world := after (Allocate (Some 8192) 20 1) s1.
Definition s3 : world := after (Grow None 64) s2.
Definition s4 : world := after Reset s3.

Definition self : Z := 1024.
Definition others : blocks := [512].

(** A fresh arena without capacity. *)
Definition empty0 : Arena := {| start := 4096; current := 4096; size := 0 |}.

End Ex.

(** ** Machine-word lemmas *)

Lemma modulus_eq : Word.modulus = 18446744073709551616.
Proof. reflexivity. Qed.

Lemma modulus_pos : 0 < Word.modulus.
Proof. rewrite modulus_eq; lia. Qed.

Lemma wrap_range (z : Z) : 0 <= Word.wrap z < Word.modulus.
Proof. unfold Word.wrap. apply Z.mod_pos_bound, modulus_pos. Qed.

Lemma wrap_small (z : Z) : 0 <= z < Word.modulus -> Word.wrap z = z.
Proof. intros H. unfold Word.wrap. now apply Z.mod_small. Qed.

Lemma wrap_add_sub (p i : Z) :
  0 <= i < Word.modulus -> Word.sub (Word.add p i) p = i.
Proof.
  intros Hi. unfold Word.sub, Word.add, Word.wrap.
  rewrite Zminus_mod_idemp_l.
  replace (p + i - p) with i by ring.
  now apply Z.mod_small.
Qed.

Lemma pow2_divides_modulus (k : Z) : 0 <= k < 64 -> (2 ^ k | Word.modulus).
Proof.
  intros Hk. exists (2 ^ (64 - k)).
  unfold Word.modulus, Word.bits.
  rewrite <- Z.pow_add_r by lia. f_equal. lia.
Qed.

Lemma is_power_of_two_spec (al : Z) :
  is_power_of_two al = true -> al < Word.modulus ->
  exists k, 0 <= k < 64 /\ al = 2 ^ k.
Proof.
  unfold is_power_of_two. intros H Hlt.
  apply andb_prop in H as [Hpos Heq].
  apply Z.ltb_lt in Hpos. apply Z.eqb_eq in Heq.
  exists (Z.log2 al). split; [split|assumption].
  - apply Z.log2_nonneg.
  - apply Z.log2_lt_pow2; [assumption|exact Hlt].
Qed.

Lemma wrap_mod_pow2 (z al : Z) :
  is_power_of_two al = true -> al < Word.modulus ->
  Word.wrap z mod al = z mod al.
Proof.
  intros H Hlt. destruct (is_power_of_two_spec al H Hlt) as (k & Hk & ->).
  unfold Word.wrap. apply Z.mod_mod_divide.
  now apply pow2_divides_modulus.
Qed.

Ltac word_lia := rewrite ?modulus_eq in *; lia.

(** Removes every wrap-around whose argument is in range. *)
Ltac unwrap :=
  unfold Word.add, Word.sub, Word.mul in *;
  repeat match goal with
         | |- context [Word.wrap ?z] => rewrite (wrap_small z) by word_lia
         | H : context [Word.wrap ?z] |- _ =>
             rewrite (wrap_small z) in H by word_lia
         end.

(** ** The alignment adjustment *)

Lemma adjustment_of_zero (cur : Z) : adjustment_of cur 0 = Fault DivisionByZero.
Proof. reflexivity. Qed.

Lemma adjustment_of_inv (cur al adj : Z) :
  adjustment_of cur al = Done adj ->
  al <> 0 /\
  adj = (if Word.sub al (cur mod al) =? al then 0 else Word.sub al (cur mod al)).
Proof.
  unfold adjustment_of, size_t_rem.
  destruct (al =? 0) eqn:E; simpl; [discriminate|].
  intros H. injection H as <-. apply Z.eqb_neq in E. now split.
Qed.

Lemma adjustment_of_range (cur al adj : Z) :
  adjustment_of cur al = Done adj -> 0 <= adj < Word.modulus.
Proof.
  intros H. apply adjustment_of_inv in H as [_ ->].
  destruct (_ =? _).
  - pose proof modulus_pos. lia.
  - apply wrap_range.
Qed.

Lemma adjustment_of_aligned (cur al adj : Z) :
  0 < al < Word.modulus ->
  adjustment_of cur al = Done adj ->
  0 <= adj < al /\ (cur + adj) mod al = 0.
Proof.
  intros Hal H. apply adjustment_of_inv in H as [_ ->].
  pose proof (Z.mod_pos_bound cur al ltac:(lia)) as Hr.
  unfold Word.sub. rewrite (wrap_small (al - cur mod al)) by lia.
  destruct (al - cur mod al =? al) eqn:E.
  - apply Z.eqb_eq in E. split; [lia|].
    rewrite Z.add_0_r. lia.
  - apply Z.eqb_neq in E. split; [lia|].
    replace (cur + (al - cur mod al)) with (cur - cur mod al + 1 * al) by ring.
    rewrite Z.mod_add by lia.
    rewrite Zminus_mod_idemp_r, Z.sub_diag. apply Z.mod_0_l. lia.
Qed.

(** ** The control flow of [arena_allocate] *)

Lemma arena_allocate_cases (r : option Z) (w : world) (sz al adj : Z) :
  adjustment_of (current (arena w)) al = Done adj ->
  arena_allocate r w sz al =
    if needs_growth (arena w) adj sz then
      match r with
      | Some p =>
          Done (NULL,
                snd (arena_grow (Some p) w
                       (Word.add (Word.mul (size (arena w)) 2) adj)))
      | None => Done (bump w adj sz)
      end
    else Done (bump w adj sz).
Proof.
  intros H. unfold arena_allocate. rewrite H. simpl.
  destruct (needs_growth _ _ _); [|reflexivity].
  destruct r; reflexivity.
Qed.

(** ** Growth inside [arena_allocate] *)

(** C1. When [arena_allocate] triggers a growth step, its result follows
    the test [!arena_grow(...)], which is true for [ARENA_SUCCESS]: if the
    growth step succeeds the call returns NULL (with the arena grown and
    nothing allocated), and if the growth step fails the call goes on to
    hand out the region at the old cursor.  The claimed behaviour (failure
    if and only if growth fails) is the opposite one. *)
Theorem arena_allocate_growth_test_inverted
  (r : option Z) (w : world) (sz al adj : Z) :
  adjustment_of (current (arena w)) al = Done adj ->
  needs_growth (arena w) adj sz = true ->
  let g := arena_grow r w (Word.add (Word.mul (size (arena w)) 2) adj) in
  (fst g = ARENA_SUCCESS -> arena_allocate r w sz al = Done (NULL, snd g))
  /\ (fst g <> ARENA_SUCCESS ->
      arena_allocate r w sz al = Done (bump w adj sz)).
Proof.
  intros Hadj Hgrow g. subst g.
  rewrite (arena_allocate_cases r w sz al adj Hadj), Hgrow.
  destruct r as [p|]; simpl; split; intros H; try reflexivity.
  - now elim H.
  - discriminate H.
Qed.

Lemma arena_allocate_growth_test_inverted_witness :
  adjustment_of (current (arena Ex.world8)) 1 = Done 0
  /\ needs_growth (arena Ex.world8) 0 10 = true
  /\ returned (arena_allocate (Some 8192) Ex.world8 10 1) = Some NULL
  /\ arena_after (arena_allocate (Some 8192) Ex.world8 10 1)
     = Some {| start := 8192; current := 8192; size := 24 |}
  /\ returned (arena_allocate None Ex.world8 10 1) = Some 4096
  /\ arena_after (arena_allocate None Ex.world8 10 1)
     = Some {| start := 4096; current := 4106; size := 8 |}.
Proof.
  split; [reflexivity|]. split; [reflexivity|].
  destruct (arena_allocate_growth_test_inverted
              (Some 8192) Ex.world8 10 1 0 eq_refl eq_refl) as [Hs _].
  destruct (arena_allocate_growth_test_inverted
              None Ex.world8 10 1 0 eq_refl eq_refl) as [_ Hf].
  rewrite (Hs eq_refl).
  rewrite (Hf ltac:(discriminate)).
  repeat split; reflexivity.
Defined.

(** The failed-growth path hands out a region that overruns the buffer. *)
Lemma failed_growth_overruns_buffer :
  returned (arena_allocate None Ex.world8 10 1) = Some 4096
  /\ ~ region_in_buffer Ex.arena8 4096 10
  /\ (forall a', arena_after (arena_allocate None Ex.world8 10 1) = Some a' ->
      ~ cursor_in_buffer a').
Proof.
  split; [reflexivity|]. split.
  - unfold region_in_buffer; simpl. lia.
  - intros a' H. vm_compute in H. injection H as <-.
    unfold cursor_in_buffer; simpl. lia.
Qed.

(** ** A zero alignment *)

(** C5. With [alignment = 0] the first statement of [arena_allocate]
    evaluates [(size_t)arena->current % 0]: the call traps on a division by
    zero, whatever the arena and the size; no precondition check precedes
    it. *)
Theorem arena_allocate_alignment_zero_divides_by_zero
  (r : option Z) (w : world) (sz : Z) :
  arena_allocate r w sz 0 = Fault DivisionByZero.
Proof. reflexivity. Qed.

(** ** Reset *)

(** C9. After [arena_reset], [arena_used] is 0, the capacity and the base
    are the ones before the reset, and the memory is the same. *)
Theorem arena_reset_rewinds_only (w : world) :
  arena_used (arena (arena_reset w)) = 0
  /\ size (arena (arena_reset w)) = size (arena w)
  /\ start (arena (arena_reset w)) = start (arena w)
  /\ heap (arena_reset w) = heap w.
Proof.
  repeat split.
  unfold arena_used, arena_reset, Word.sub; simpl.
  rewrite Z.sub_diag. reflexivity.
Qed.

(** ** Zero-sized allocation *)

(** C10. On a live arena whose cursor lies within its buffer,
    [arena_allocate(arena, 0, 1)] returns the current cursor, which is not
    NULL, and leaves the arena record (hence [arena_used],
    [arena_available] and the capacity) and every byte of memory
    unchanged. *)
Theorem arena_allocate_zero_size_noop (r : option Z) (w : world) :
  live (arena w) -> cursor_in_buffer (arena w) ->
  exists w',
    arena_allocate r w 0 1 = Done (current (arena w), w')
    /\ current (arena w) <> NULL
    /\ arena w' = arena w
    /\ arena_used (arena w') = arena_used (arena w)
    /\ arena_available (arena w') = arena_available (arena w)
    /\ size (arena w') = size (arena w)
    /\ forall a, heap w' a = heap w a.
Proof.
  intros (Hs & Hn & Hend) [Hlo Hhi].
  assert (Hadj : adjustment_of (current (arena w)) 1 = Done 0).
  { unfold adjustment_of, size_t_rem; simpl. rewrite Z.mod_1_r. reflexivity. }
  assert (Hfit : needs_growth (arena w) 0 0 = false).
  { unfold needs_growth. apply Z.ltb_ge. unwrap.
    rewrite !Z.add_0_r. unwrap. lia. }
  rewrite (arena_allocate_cases r w 0 1 0 Hadj), Hfit.
  assert (Hcur : Word.add (current (arena w)) 0 = current (arena w)).
  { unfold Word.add. rewrite Z.add_0_r. apply wrap_small. word_lia. }
  assert (Hcur' : Word.add (current (arena w)) (Word.add 0 0) = current (arena w)).
  { exact Hcur. }
  assert (Ha : arena (snd (bump w 0 0)) = arena w).
  { unfold bump; simpl. rewrite Hcur'. destruct (arena w); reflexivity. }
  exists (snd (bump w 0 0)). split.
  { unfold bump at 1; simpl. rewrite Hcur. reflexivity. }
  split; [unfold NULL; lia|].
  split; [exact Ha|].
  rewrite Ha. repeat split.
  intros a. unfold bump, memset_zero, addr_in; simpl.
  destruct (Z.ltb_spec (Word.sub a (Word.add (current (arena w)) 0)) 0) as [Hlt|_].
  - pose proof (wrap_range (a - Word.add (current (arena w)) 0)).
    unfold Word.sub in Hlt. lia.
  - reflexivity.
Qed.

Lemma arena_allocate_zero_size_noop_witness :
  live Ex.half16 /\ cursor_in_buffer Ex.half16
  /\ exists w',
       arena_allocate None Ex.world_half16 0 1 = Done (4104, w')
       /\ arena w' = Ex.half16
       /\ forall a, heap w' a = Ex.ones_at_4096 a.
Proof.
  assert (Hl : live Ex.half16) by (unfold live; simpl; word_lia).
  assert (Hc : cursor_in_buffer Ex.half16) by (unfold cursor_in_buffer; simpl; lia).
  split; [exact Hl|]. split; [exact Hc|].
  destruct (arena_allocate_zero_size_noop None Ex.world_half16 Hl Hc)
    as (w' & Hrun & _ & Ha & _ & _ & _ & Hm).
  exists w'. repeat split; assumption.
Defined.

(** ** The returned region *)

(** A call that returns a non-null pointer went through the tail of the
    function: the pointer is [current + adjustment] and the state is the
    bumped one, either of the arena as it was or, after a growth step
    that failed, of the same arena. *)
Lemma arena_allocate_success_inv
  (r : option Z) (w : world) (sz al p : Z) (w' : world) :
  arena_allocate r w sz al = Done (p, w') -> p <> NULL ->
  exists adj,
    adjustment_of (current (arena w)) al = Done adj
    /\ (p, w') = bump w adj sz.
Proof.
  intros Hrun Hp.
  destruct (adjustment_of (current (arena w)) al) as [f|adj] eqn:Hadj.
  - unfold arena_allocate in Hrun. rewrite Hadj in Hrun. discriminate.
  - exists adj. split; [reflexivity|].
    rewrite (arena_allocate_cases r w sz al adj Hadj) in Hrun.
    destruct (needs_growth _ _ _).
    + destruct r as [q|].
      * injection Hrun as <- _. now elim Hp.
      * now injection Hrun as <- <-.
    + now injection Hrun as <- <-.
Qed.

Lemma memset_zero_inside (m : mem) (p n i : Z) :
  0 <= i < n -> memset_zero m p n (Word.add p i) = Byte.x00.
Proof.
  intros Hi. unfold memset_zero, addr_in.
  assert (Hlt : Word.sub (Word.add p i) p < n).
  { unfold Word.sub, Word.add, Word.wrap.
    rewrite Zminus_mod_idemp_l.
    replace (p + i - p) with i by ring.
    pose proof (Z.mod_le i Word.modulus ltac:(lia) modulus_pos). lia. }
  apply Z.ltb_lt in Hlt. rewrite Hlt. reflexivity.
Qed.

(** C6. After a call of [arena_allocate] that returns a non-null pointer
    [p], each of the [sz] bytes at [p], [p+1], ... reads as zero. *)
Theorem arena_allocate_zero_fills
  (r : option Z) (w : world) (sz al p : Z) (w' : world) :
  arena_allocate r w sz al = Done (p, w') -> p <> NULL ->
  forall i, 0 <= i < sz -> heap w' (Word.add p i) = Byte.x00.
Proof.
  intros Hrun Hp i Hi.
  destruct (arena_allocate_success_inv r w sz al p w' Hrun Hp)
    as (adj & _ & Hbump).
  unfold bump in Hbump. injection Hbump as -> ->. simpl.
  now apply memset_zero_inside.
Qed.

Lemma arena_allocate_zero_fills_witness :
  returned (arena_allocate None Ex.world_fresh16 4 4) = Some 4096
  /\ 4096 <> NULL
  /\ 0 <= 3 < 4
  /\ Ex.ones_at_4096 4099 = Byte.x01
  /\ byte_after (arena_allocate None Ex.world_fresh16 4 4) (Word.add 4096 3)
     = Some Byte.x00.
Proof.
  split; [reflexivity|].
  assert (Hp : 4096 <> NULL) by (unfold NULL; lia).
  assert (Hi : 0 <= 3 < 4) by lia.
  split; [exact Hp|]. split; [exact Hi|]. split; [reflexivity|].
  destruct (arena_allocate None Ex.world_fresh16 4 4) as [f|[p w']] eqn:Hrun.
  - discriminate Hrun.
  - assert (p = 4096) as ->.
    { apply (f_equal returned) in Hrun. vm_compute in Hrun.
      now injection Hrun. }
    simpl. f_equal.
    exact (arena_allocate_zero_fills None Ex.world_fresh16 4 4 4096 w'
             Hrun Hp 3 Hi).
Defined.

(** C7 (as amended). For a power-of-two alignment, the pointer returned by
    [arena_allocate] is a multiple of the alignment; its offset from the
    base of the buffer is one exactly when the base itself is. *)
Theorem arena_allocate_aligned_address
  (r : option Z) (w : world) (sz al p : Z) (w' : world) :
  is_power_of_two al = true -> al < Word.modulus ->
  arena_allocate r w sz al = Done (p, w') ->
  p mod al = 0
  /\ (Word.sub p (start (arena w')) mod al = 0 <-> start (arena w') mod al = 0).
Proof.
  intros Hpow Hlt Hrun.
  assert (Hal : 0 < al).
  { unfold is_power_of_two in Hpow. apply andb_prop in Hpow as [H _].
    now apply Z.ltb_lt. }
  assert (Hp : p mod al = 0).
  { destruct (Z.eq_dec p NULL) as [->|Hnz].
    - apply Z.mod_0_l. lia.
    - destruct (arena_allocate_success_inv r w sz al p w' Hrun Hnz)
        as (adj & Hadj & Hbump).
      unfold bump in Hbump. injection Hbump as -> _.
      unfold Word.add. rewrite (wrap_mod_pow2 _ al Hpow Hlt).
      apply (adjustment_of_aligned _ al adj); [lia|exact Hadj]. }
  split; [exact Hp|].
  unfold Word.sub. rewrite (wrap_mod_pow2 _ al Hpow Hlt).
  rewrite Zminus_mod, Hp, Z.sub_0_l.
  set (s := start (arena w') mod al).
  pose proof (Z.mod_pos_bound (start (arena w')) al Hal) as Hs. fold s in Hs.
  split; intros H.
  - destruct (Z.eq_dec s 0) as [E|E]; [exact E|].
    replace (- s) with (al - s + (-1) * al) in H by ring.
    rewrite Z.mod_add in H by lia.
    rewrite Z.mod_small in H by lia. lia.
  - rewrite H. reflexivity.
Qed.

Lemma arena_allocate_aligned_address_witness :
  is_power_of_two 8 = true /\ 8 < Word.modulus
  /\ returned (arena_allocate None Ex.world_half16 4 8) = Some 4104
  /\ 4104 mod 8 = 0.
Proof.
  assert (Hlt : 8 < Word.modulus) by word_lia.
  split; [reflexivity|]. split; [exact Hlt|]. split; [reflexivity|].
  destruct (arena_allocate None Ex.world_half16 4 8) as [f|[p w']] eqn:Hrun.
  - discriminate Hrun.
  - assert (p = 4104) as ->.
    { apply (f_equal returned) in Hrun. vm_compute in Hrun.
      now injection Hrun. }
    exact (proj1 (arena_allocate_aligned_address None Ex.world_half16 4 8 4104 w'
                    eq_refl Hlt Hrun)).
Defined.

(** C7, counterexample. The address is aligned but the offset is not: with
    the base at 4112 (a multiple of 16, not of 32),
    [arena_allocate(arena, 4, 32)] succeeds and returns 4128, which is 16
    bytes from the base. *)
Lemma offset_not_aligned_counterexample :
  is_power_of_two 32 = true
  /\ live Ex.base4112 /\ cursor_in_buffer Ex.base4112
  /\ returned (arena_allocate None Ex.world4112 4 32) = Some 4128
  /\ arena_after (arena_allocate None Ex.world4112 4 32)
     = Some {| start := 4112; current := 4132; size := 64 |}
  /\ 4128 mod 32 = 0
  /\ Word.sub 4128 4112 mod 32 <> 0.
Proof.
  split; [reflexivity|].
  split; [unfold live; simpl; word_lia|].
  split; [unfold cursor_in_buffer; simpl; lia|].
  split; [reflexivity|]. split; [reflexivity|]. split; [reflexivity|].
  vm_compute. discriminate.
Qed.

(** ** [arena_grow] *)

Lemma arena_grow_failure (w : world) (n : Z) :
  arena_grow None w n = (ARENA_ERROR_REALLOCATION_FAILED, w).
Proof. reflexivity. Qed.

Lemma realloc_move_prefix (m : mem) (old_p old_n new_p new_n i : Z) :
  0 <= i < Z.min old_n new_n -> i < Word.modulus ->
  0 <= old_p + i < Word.modulus ->
  realloc_move m old_p old_n new_p new_n (Word.add new_p i) = m (old_p + i).
Proof.
  intros Hi Hm Hold. unfold realloc_move, addr_in.
  rewrite wrap_add_sub by lia.
  destruct (Z.ltb_spec i (Z.min old_n new_n)) as [_|Hge]; [|lia].
  unfold Word.add. now rewrite wrap_small.
Qed.

(** C4 (as amended). On a live arena whose cursor lies within its buffer,
    and for an additional size [n] such that [capacity + n] does not
    overflow [size_t]: if the reallocation succeeds, [arena_grow] reports
    success, the capacity becomes the old capacity plus [n], the cursor is
    the new base plus the used byte count, [arena_used] is unchanged and
    the first [used] bytes of the new buffer are those of the old one; if
    the reallocation fails, [arena_grow] reports
    [ARENA_ERROR_REALLOCATION_FAILED] and the state is the one before the
    call. *)
Theorem arena_grow_spec (r : option Z) (w : world) (n : Z) :
  live (arena w) -> cursor_in_buffer (arena w) ->
  0 <= n -> size (arena w) + n < Word.modulus ->
  match r with
  | Some new_base =>
      let w' := snd (arena_grow r w n) in
      fst (arena_grow r w n) = ARENA_SUCCESS
      /\ size (arena w') = size (arena w) + n
      /\ start (arena w') = new_base
      /\ current (arena w') = Word.add new_base (arena_used (arena w))
      /\ arena_used (arena w') = arena_used (arena w)
      /\ forall i, 0 <= i < arena_used (arena w) ->
           heap w' (Word.add new_base i) = heap w (start (arena w) + i)
  | None =>
      arena_grow r w n = (ARENA_ERROR_REALLOCATION_FAILED, w)
  end.
Proof.
  intros (Hs & Hn & Hend) [Hlo Hhi] Hn0 Hsum.
  destruct r as [new_base|]; [|reflexivity].
  assert (Hused : arena_used (arena w) = current (arena w) - start (arena w)).
  { unfold arena_used. unwrap. reflexivity. }
  simpl. repeat split.
  - unwrap. reflexivity.
  - unfold arena_used at 1; simpl. fold (arena_used (arena w)).
    apply wrap_add_sub. rewrite Hused. word_lia.
  - intros i Hi. fold (arena_used (arena w)) in *.
    apply realloc_move_prefix.
    + unfold Word.add. rewrite (wrap_small (size (arena w) + n)) by word_lia.
      lia.
    + word_lia.
    + word_lia.
Qed.

Lemma arena_grow_spec_witness :
  live Ex.half16 /\ cursor_in_buffer Ex.half16
  /\ 0 <= 16 /\ 16 + 16 < Word.modulus
  /\ arena (snd (arena_grow (Some 8192) Ex.world_half16 16))
     = {| start := 8192; current := 8200; size := 32 |}
  /\ heap (snd (arena_grow (Some 8192) Ex.world_half16 16)) (Word.add 8192 7)
     = Ex.ones_at_4096 (4096 + 7)
  /\ arena_grow None Ex.world_half16 16
     = (ARENA_ERROR_REALLOCATION_FAILED, Ex.world_half16).
Proof.
  assert (Hl : live Ex.half16) by (unfold live; simpl; word_lia).
  assert (Hc : cursor_in_buffer Ex.half16) by (unfold cursor_in_buffer; simpl; lia).
  assert (H0 : 0 <= 16) by lia.
  assert (Hsum : 16 + 16 < Word.modulus) by word_lia.
  split; [exact Hl|]. split; [exact Hc|]. split; [exact H0|].
  split; [exact Hsum|]. split; [reflexivity|].
  split.
  - destruct (arena_grow_spec (Some 8192) Ex.world_half16 16 Hl Hc H0 Hsum)
      as (_ & _ & _ & _ & _ & Hbytes).
    apply (Hbytes 7). vm_compute. split; [discriminate|reflexivity].
  - exact (arena_grow_spec None Ex.world_half16 16 Hl Hc H0 Hsum).
Defined.

(** C4, counterexample. On the full sixteen-byte arena,
    [arena_grow(arena, 2^64 - 8)] computes the new size 8 by wrap-around;
    when the reallocation succeeds (here at 8192) the call reports success
    with capacity 8, not [16 + (2^64 - 8)], and byte 8 of the sixteen used
    bytes is not carried over. *)
Lemma arena_grow_overflow_counterexample :
  live Ex.full16 /\ cursor_in_buffer Ex.full16
  /\ 0 <= Ex.huge < Word.modulus
  /\ fst (arena_grow (Some 8192) Ex.world_full16 Ex.huge) = ARENA_SUCCESS
  /\ size (arena (snd (arena_grow (Some 8192) Ex.world_full16 Ex.huge))) = 8
  /\ size (arena (snd (arena_grow (Some 8192) Ex.world_full16 Ex.huge)))
     <> size Ex.full16 + Ex.huge
  /\ arena_used Ex.full16 = 16
  /\ heap (snd (arena_grow (Some 8192) Ex.world_full16 Ex.huge)) (8192 + 8)
     <> heap Ex.world_full16 (4096 + 8).
Proof.
  split; [unfold live; simpl; word_lia|].
  split; [unfold cursor_in_buffer; simpl; lia|].
  split; [unfold Ex.huge; word_lia|].
  split; [reflexivity|]. split; [reflexivity|].
  split; [vm_compute; discriminate|].
  split; [reflexivity|].
  vm_compute. discriminate.
Qed.

(** ** The growth policy of [arena_allocate] *)




(** ** The data-model invariant *)

Lemma arena_new_invariant (r_arena r_buf : option Z) (n : Z) (a : Arena) :
  arena_new r_arena r_buf n = Some a ->
  (forall b, r_buf = Some b -> block_ok b n = true) -> 0 <= n ->
  invariant a /\ size a = n.
Proof.
  intros Hnew Hblock Hn. unfold arena_new in Hnew.
  destruct r_arena as [q|]; [|discriminate].
  destruct r_buf as [b|]; [|discriminate].
  injection Hnew as <-.
  specialize (Hblock b eq_refl). unfold block_ok in Hblock.
  apply andb_prop in Hblock as [Hb Hend].
  apply Z.ltb_lt in Hb. apply Z.ltb_lt in Hend.
  unfold invariant, live, cursor_in_buffer; simpl. lia.
Qed.

Lemma bump_invariant (w : world) (adj sz : Z) :
  invariant (arena w) -> 0 <= adj -> 0 <= sz ->
  current (arena w) + adj + sz < Word.modulus ->
  needs_growth (arena w) adj sz = false ->
  invariant (arena (snd (bump w adj sz)))
  /\ size (arena (snd (bump w adj sz))) = size (arena w).
Proof.
  intros [(Hs & Hn & Hend) [Hlo Hhi]] Hadj Hsz Hno Hfit.
  unfold needs_growth in Hfit. apply Z.ltb_ge in Hfit.
  unfold invariant, live, cursor_in_buffer, bump; simpl.
  unwrap. lia.
Qed.

Lemma arena_grow_invariant (p : Z) (w : world) (n : Z) :
  invariant (arena w) -> 0 <= n -> block_ok p (size (arena w) + n) = true ->
  invariant (arena (snd (arena_grow (Some p) w n)))
  /\ size (arena (snd (arena_grow (Some p) w n))) = size (arena w) + n.
Proof.
  intros [(Hs & Hn & Hend) [Hlo Hhi]] Hn0 Hblock.
  unfold block_ok in Hblock. apply andb_prop in Hblock as [Hp Hpend].
  apply Z.ltb_lt in Hp. apply Z.ltb_lt in Hpend.
  unfold invariant, live, cursor_in_buffer; simpl.
  unwrap. lia.
Qed.

Lemma step_invariant (o : op) (w w' : world) :
  invariant (arena w) -> in_domain o w = true -> step o w = Done w' ->
  invariant (arena w') /\ size (arena w) <= size (arena w').
Proof.
  intros Hinv Hdom Hstep. destruct o as [r sz al|r n|]; simpl in *.
  - destruct (adjustment_of (current (arena w)) al) as [f|adj] eqn:Hadj;
      [discriminate|].
    pose proof (adjustment_of_range _ _ _ Hadj) as Hrange.
    rewrite (arena_allocate_cases r w sz al adj Hadj) in Hstep.
    repeat (apply andb_prop in Hdom as [Hdom ?]).
    repeat match goal with
           | H : (_ <? _) = true |- _ => apply Z.ltb_lt in H
           | H : (_ <=? _) = true |- _ => apply Z.leb_le in H
           end.
    destruct (needs_growth (arena w) adj sz) eqn:Hgrow.
    + destruct r as [p|]; [|discriminate].
      simpl in Hstep. injection Hstep as <-.
      assert (Hamount : Word.add (Word.mul (size (arena w)) 2) adj
                        = size (arena w) * 2 + adj).
      { destruct Hinv as [(Hs & Hn & Hend) _].
        match goal with
        | H : block_ok _ _ = true |- _ =>
            unfold block_ok in H; apply andb_prop in H as [Hp Hpend];
            apply Z.ltb_lt in Hp; apply Z.ltb_lt in Hpend
        end.
        unwrap. reflexivity. }
      rewrite Hamount.
      assert (Hn : 0 <= size (arena w)) by apply Hinv.
      destruct (arena_grow_invariant p w (size (arena w) * 2 + adj))
        as [Hinv' Hsize]; [assumption|lia|assumption|].
      split; [exact Hinv'|]. simpl in Hsize |- *. lia.
    + simpl in Hstep. injection Hstep as <-.
      destruct (bump_invariant w adj sz) as [Hinv' Hsize];
        try assumption; try lia.
      split; [exact Hinv'|]. simpl in Hsize |- *. lia.
  - injection Hstep as <-.
    repeat (apply andb_prop in Hdom as [Hdom ?]).
    apply Z.leb_le in Hdom.
    destruct r as [p|].
    + destruct (arena_grow_invariant p w n) as [Hinv' Hsize];
        try assumption.
      split; [exact Hinv'|]. simpl in Hsize |- *. lia.
    + simpl. split; [exact Hinv|lia].
  - injection Hstep as <-.
    destruct Hinv as [Hlive [Hlo Hhi]].
    unfold invariant, live, cursor_in_buffer in *; simpl. lia.
Qed.

Lemma reaches_invariant (w w' : world) :
  invariant (arena w) -> reaches w w' ->
  invariant (arena w') /\ size (arena w) <= size (arena w').
Proof.
  intros Hinv Hreach. induction Hreach as [|o w1 w2 _ IH Hdom Hstep].
  - split; [exact Hinv|lia].
  - destruct IH as [Hinv1 Hle].
    destruct (step_invariant o w1 w2 Hinv1 Hdom Hstep) as [Hinv2 Hle2].
    split; [exact Hinv2|lia].
Qed.

(** C3 (as amended). Start from a state made by [arena_new] and run any
    sequence of [arena_allocate], [arena_grow] and [arena_reset] calls in
    which the alignments are powers of two, no [size_t] or address
    computation overflows, and every growth step that an allocation
    triggers succeeds.  In every state reached, the buffer is a block in
    the address space, [base <= cursor <= base + capacity] holds, the
    capacity is at least the initial one, and no further such operation
    decreases the capacity. *)
Theorem invariant_on_reachable_states
  (r_arena r_buf : option Z) (n : Z) (a : Arena) (m : mem) (w : world) :
  arena_new r_arena r_buf n = Some a ->
  (forall b, r_buf = Some b -> block_ok b n = true) -> 0 <= n ->
  reaches {| arena := a; heap := m |} w ->
  live (arena w)
  /\ start (arena w) <= current (arena w) <= start (arena w) + size (arena w)
  /\ n <= size (arena w)
  /\ forall o w', in_domain o w = true -> step o w = Done w' ->
       size (arena w) <= size (arena w').
Proof.
  intros Hnew Hblock Hn Hreach.
  destruct (arena_new_invariant _ _ _ _ Hnew Hblock Hn) as [Hinv0 Hsize0].
  destruct (reaches_invariant {| arena := a; heap := m |} w Hinv0 Hreach)
    as [[Hlive Hcur] Hle].
  simpl in Hle. rewrite Hsize0 in Hle.
  split; [exact Hlive|]. split; [exact Hcur|]. split; [exact Hle|].
  intros o w' Hdom Hstep.
  exact (proj2 (step_invariant o w w' (conj Hlive Hcur) Hdom Hstep)).
Qed.

Lemma invariant_on_reachable_states_witness :
  arena_new (Some 1024) (Some 4096) 16 = Some Ex.fresh16
  /\ (forall b, Some 4096 = Some b -> block_ok b 16 = true)
  /\ 0 <= 16
  /\ reaches Ex.world_fresh16 Ex.s4
  /\ arena Ex.s2 = {| start := 8192; current := 8196; size := 48 |}
  /\ arena Ex.s4 = {| start := 8192; current := 8192; size := 48 |}
  /\ start (arena Ex.s4) <= current (arena Ex.s4)
                         <= start (arena Ex.s4) + size (arena Ex.s4)
  /\ 16 <= size (arena Ex.s4).
Proof.
  assert (Hblock : forall b, Some 4096 = Some b -> block_ok b 16 = true).
  { intros b Hb. injection Hb as <-. reflexivity. }
  assert (Hn : 0 <= 16) by lia.
  assert (Hreach : reaches Ex.world_fresh16 Ex.s4).
  { apply (reaches_step _ Reset Ex.s3); [|reflexivity|reflexivity].
    apply (reaches_step _ (Grow None 64) Ex.s2); [|reflexivity|reflexivity].
    apply (reaches_step _ (Allocate (Some 8192) 20 1) Ex.s1);
      [|reflexivity|reflexivity].
    apply (reaches_step _ (Allocate None 4 4) Ex.world_fresh16);
      [|reflexivity|reflexivity].
    apply reaches_here. }
  split; [reflexivity|]. split; [exact Hblock|]. split; [exact Hn|].
  split; [exact Hreach|]. split; [reflexivity|]. split; [reflexivity|].
  destruct (invariant_on_reachable_states
              (Some 1024) (Some 4096) 16 Ex.fresh16 Ex.ones_at_4096 Ex.s4
              eq_refl Hblock Hn Hreach) as (_ & Hcur & Hcap & _).
  split; [exact Hcur|exact Hcap].
Defined.

(** C3, counterexample. From [arena_new(16)], an allocation of 16 bytes
    fills the buffer; [arena_grow(arena, 2^64 - 8)] then computes the new
    size 8 by wrap-around and, the reallocation succeeding in place, leaves
    capacity 8 (less than 16) with the cursor 16 bytes past the base,
    beyond [base + capacity]. *)
Lemma capacity_decrease_counterexample :
  arena_new (Some 1024) (Some 4096) 16 = Some Ex.fresh16
  /\ is_power_of_two 1 = true
  /\ arena_of (run [Allocate None 16 1] Ex.world_fresh16)
     = Some {| start := 4096; current := 4112; size := 16 |}
  /\ arena_of (run [Allocate None 16 1; Grow (Some 4096) Ex.huge]
                  Ex.world_fresh16)
     = Some {| start := 4096; current := 4112; size := 8 |}
  /\ 8 < 16
  /\ ~ cursor_in_buffer {| start := 4096; current := 4112; size := 8 |}.
Proof.
  split; [reflexivity|]. split; [reflexivity|]. split; [reflexivity|].
  split; [reflexivity|]. split; [lia|].
  unfold cursor_in_buffer; simpl. lia.
Qed.

(** ** Utilization *)

(** C8. [arena_utilization] multiplies the ratio by [100.0f]: on the
    sixteen-byte arena with eight bytes used it returns [50.0f], and on the
    full one [100.0f]; neither lies in the interval from 0 to 1. *)
Theorem arena_utilization_is_a_percentage :
  arena_used Ex.half16 = 8 /\ size Ex.half16 = 16
  /\ arena_utilization Ex.half16 = F32.of_size_t 50
  /\ F32.leb (arena_utilization Ex.half16) F32.one = false
  /\ arena_utilization Ex.full16 = F32.hundred
  /\ F32.leb (arena_utilization Ex.full16) F32.one = false.
Proof. repeat split; vm_compute; reflexivity. Qed.

(** * Further properties of the code *)

(** ** Allocations that fit: shared lemmas *)

Lemma fits_inv (a : Arena) (sz al : Z) :
  fits a sz al = true ->
  exists adj,
    adjustment_of (current a) al = Done adj
    /\ 0 <= adj < Word.modulus
    /\ current a + adj + sz <= start a + size a.
Proof.
  unfold fits. destruct (adjustment_of (current a) al) as [f|adj] eqn:Hadj;
    [discriminate|].
  intros H. apply Z.leb_le in H. exists adj.
  split; [reflexivity|]. split; [|exact H].
  exact (adjustment_of_range _ _ _ Hadj).
Qed.

Lemma needs_growth_iff (a : Arena) (adj sz : Z) :
  invariant a -> 0 <= adj -> 0 <= sz ->
  current a + adj + sz < Word.modulus ->
  needs_growth a adj sz = true <-> start a + size a < current a + adj + sz.
Proof.
  intros [(Hs & Hn & Hend) [Hlo Hhi]] Hadj Hsz Hno.
  unfold needs_growth. rewrite Z.ltb_lt. unwrap. reflexivity.
Qed.

Lemma fits_no_growth (a : Arena) (sz al adj : Z) :
  invariant a -> 0 <= sz ->
  adjustment_of (current a) al = Done adj ->
  current a + adj + sz <= start a + size a ->
  needs_growth a adj sz = false.
Proof.
  intros Hinv Hsz Hadj Hfit.
  pose proof (adjustment_of_range _ _ _ Hadj) as Hrange.
  destruct (needs_growth a adj sz) eqn:E; [|reflexivity].
  apply needs_growth_iff in E; try assumption; try lia.
  destruct Hinv as [(Hs & Hn & Hend) _]. lia.
Qed.

Lemma arena_used_range (a : Arena) :
  invariant a ->
  arena_used a = current a - start a /\ 0 <= arena_used a <= size a.
Proof.
  intros [(Hs & Hn & Hend) [Hlo Hhi]].
  unfold arena_used. unwrap. lia.
Qed.

(** What an allocation that fits computes: no growth step, the pointer
    [current + adjustment], and the cursor right after the region. *)
Lemma fits_outcome (r : option Z) (w : world) (sz al : Z) :
  invariant (arena w) -> 0 <= sz -> fits (arena w) sz al = true ->
  exists adj,
    adjustment_of (current (arena w)) al = Done adj
    /\ 0 <= adj
    /\ current (arena w) + adj + sz <= start (arena w) + size (arena w)
    /\ arena_allocate r w sz al = Done (bump w adj sz)
    /\ fst (bump w adj sz) = current (arena w) + adj
    /\ arena (snd (bump w adj sz))
       = {| start := start (arena w);
            current := current (arena w) + adj + sz;
            size := size (arena w) |}.
Proof.
  intros Hinv Hsz Hfits.
  destruct (fits_inv _ _ _ Hfits) as (adj & Hadj & Hrange & Hfit).
  pose proof (fits_no_growth _ _ _ _ Hinv Hsz Hadj Hfit) as Hno.
  destruct Hinv as [(Hs & Hn & Hend) [Hlo Hhi]].
  exists adj. split; [exact Hadj|]. split; [lia|]. split; [exact Hfit|].
  split; [|split].
  - now rewrite (arena_allocate_cases r w sz al adj Hadj), Hno.
  - unfold bump; simpl. unwrap. reflexivity.
  - unfold bump; simpl. unwrap. f_equal. lia.
Qed.

Lemma addr_in_outside (p n a : Z) :
  0 <= p -> 0 <= n -> p + n < Word.modulus -> 0 <= a < Word.modulus ->
  a < p \/ p + n <= a ->
  addr_in p n a = false.
Proof.
  intros Hp Hn Hend Ha Hout. unfold addr_in. apply Z.ltb_ge.
  destruct Hout as [Hlt|Hge].
  - unfold Word.sub, Word.wrap.
    replace (a - p) with (a - p + Word.modulus + (-1) * Word.modulus) by ring.
    rewrite Z.mod_add by word_lia.
    rewrite Z.mod_small by word_lia. lia.
  - unfold Word.sub. rewrite wrap_small by word_lia. lia.
Qed.

(** The tail of [arena_allocate] writes inside its region only. *)
Lemma bump_frame (w : world) (adj sz a : Z) :
  invariant (arena w) -> 0 <= adj -> 0 <= sz ->
  current (arena w) + adj + sz <= start (arena w) + size (arena w) ->
  0 <= a < Word.modulus ->
  a < current (arena w) + adj \/ current (arena w) + adj + sz <= a ->
  heap (snd (bump w adj sz)) a = heap w a.
Proof.
  intros [(Hs & Hn & Hend) [Hlo Hhi]] Hadj Hsz Hfit Ha Hout.
  unfold bump; simpl. unfold memset_zero.
  rewrite addr_in_outside; try reflexivity; try lia.
  - unwrap. lia.
  - unwrap. word_lia.
  - unwrap. lia.
Qed.

Lemma bump_invariant_fits (w : world) (adj sz : Z) :
  invariant (arena w) -> 0 <= adj -> 0 <= sz ->
  current (arena w) + adj + sz <= start (arena w) + size (arena w) ->
  invariant {| start := start (arena w);
               current := current (arena w) + adj + sz;
               size := size (arena w) |}.
Proof.
  intros [(Hs & Hn & Hend) [Hlo Hhi]] Hadj Hsz Hfit.
  unfold invariant, live, cursor_in_buffer; simpl. lia.
Qed.

(** ** Bookkeeping *)

(** X1. On an arena that satisfies the invariant, [arena_used] and
    [arena_available] split the capacity: both lie between 0 and [size] and
    they add up to [size]. *)
Theorem arena_used_plus_available (a : Arena) :
  invariant a ->
  0 <= arena_used a <= size a
  /\ 0 <= arena_available a <= size a
  /\ arena_used a + arena_available a = size a.
Proof.
  intros [(Hs & Hn & Hend) [Hlo Hhi]].
  unfold arena_used, arena_available. unwrap. lia.
Qed.

Lemma arena_used_plus_available_witness :
  invariant Ex.half16
  /\ arena_used Ex.half16 + arena_available Ex.half16 = size Ex.half16.
Proof.
  assert (Hinv : invariant Ex.half16).
  { unfold invariant, live, cursor_in_buffer; simpl. word_lia. }
  split; [exact Hinv|].
  exact (proj2 (proj2 (arena_used_plus_available Ex.half16 Hinv))).
Defined.

(** ** Allocations that fit *)

(** X2. An allocation that fits is served in place, whatever the
    allocator would answer: the call returns the cursor rounded up by the
    padding, a non-null pointer; the [sz] bytes returned lie inside the
    buffer; base and capacity are unchanged; the cursor ends right after
    the region; [arena_used] grows, and [arena_available] shrinks, by
    padding plus size; and the invariant still holds. *)
Theorem arena_allocate_fits (r : option Z) (w : world) (sz al : Z) :
  invariant (arena w) -> 0 <= sz -> fits (arena w) sz al = true ->
  exists adj w',
    adjustment_of (current (arena w)) al = Done adj
    /\ arena_allocate r w sz al = Done (current (arena w) + adj, w')
    /\ current (arena w) + adj <> NULL
    /\ region_in_buffer (arena w) (current (arena w) + adj) sz
    /\ start (arena w') = start (arena w)
    /\ size (arena w') = size (arena w)
    /\ current (arena w') = current (arena w) + adj + sz
    /\ arena_used (arena w') = arena_used (arena w) + (adj + sz)
    /\ arena_available (arena w') = arena_available (arena w) - (adj + sz)
    /\ invariant (arena w').
Proof.
  intros Hinv Hsz Hfits.
  destruct (fits_outcome r w sz al Hinv Hsz Hfits)
    as (adj & Hadj & Hadj0 & Hfit & Hrun & Hptr & Harena).
  pose proof (bump_invariant_fits w adj sz Hinv Hadj0 Hsz Hfit) as Hinv'.
  destruct Hinv as [(Hs & Hn & Hend) [Hlo Hhi]].
  exists adj, (snd (bump w adj sz)).
  split; [exact Hadj|]. split.
  { rewrite Hrun, <- Hptr. now destruct (bump w adj sz). }
  split; [unfold NULL; lia|].
  split; [unfold region_in_buffer; lia|].
  rewrite Harena. simpl.
  split; [reflexivity|]. split; [reflexivity|]. split; [reflexivity|].
  split; [|split; [|exact Hinv']].
  - unfold arena_used; simpl. unwrap. lia.
  - unfold arena_available; simpl. unwrap. lia.
Qed.

Lemma arena_allocate_fits_witness :
  invariant Ex.half16 /\ 0 <= 4 /\ fits Ex.half16 4 8 = true
  /\ exists w',
       arena_allocate None Ex.world_half16 4 8 = Done (4104 + 0, w')
       /\ current (arena w') = 4104 + 0 + 4.
Proof.
  assert (Hinv : invariant Ex.half16).
  { unfold invariant, live, cursor_in_buffer; simpl. word_lia. }
  assert (Hsz : 0 <= 4) by lia.
  split; [exact Hinv|]. split; [exact Hsz|]. split; [reflexivity|].
  destruct (arena_allocate_fits None Ex.world_half16 4 8 Hinv Hsz eq_refl)
    as (adj & w' & Hadj & Hrun & _ & _ & _ & _ & Hcur & _).
  assert (adj = 0) as -> by (vm_compute in Hadj; now injection Hadj).
  exists w'. split; [exact Hrun|exact Hcur].
Defined.

(** X3. An allocation that fits writes, inside the buffer, only its own
    region: every byte of the buffer below the returned pointer (all
    earlier allocations among them) and every byte of the buffer from the
    end of the region on is what it was before the call. *)
Theorem arena_allocate_fits_frame
  (r : option Z) (w : world) (sz al p : Z) (w' : world) :
  invariant (arena w) -> 0 <= sz -> fits (arena w) sz al = true ->
  arena_allocate r w sz al = Done (p, w') ->
  forall a, start (arena w) <= a < start (arena w) + size (arena w) ->
    a < p \/ p + sz <= a ->
    heap w' a = heap w a.
Proof.
  intros Hinv Hsz Hfits Hrun a Ha Hout.
  destruct (fits_outcome r w sz al Hinv Hsz Hfits)
    as (adj & _ & Hadj0 & Hfit & Hrun' & Hptr & _).
  assert (Hb : bump w adj sz = (p, w')) by congruence.
  rewrite Hb in Hptr. simpl in Hptr. subst p.
  replace w' with (snd (bump w adj sz)) by (now rewrite Hb).
  assert (Ha' : 0 <= a < Word.modulus).
  { destruct Hinv as [(Hs & Hn & Hend) _]. lia. }
  apply bump_frame; assumption || lia.
Qed.

Lemma arena_allocate_fits_frame_witness :
  invariant Ex.fresh16 /\ 0 <= 4 /\ fits Ex.fresh16 4 4 = true
  /\ returned (arena_allocate None Ex.world_fresh16 4 4) = Some 4096
  /\ start Ex.fresh16 <= 4100 < start Ex.fresh16 + size Ex.fresh16
  /\ (4100 < 4096 \/ 4096 + 4 <= 4100)
  /\ byte_after (arena_allocate None Ex.world_fresh16 4 4) 4100
     = Some (Ex.ones_at_4096 4100).
Proof.
  assert (Hinv : invariant Ex.fresh16).
  { unfold invariant, live, cursor_in_buffer; simpl. word_lia. }
  assert (Hsz : 0 <= 4) by lia.
  assert (Ha : start Ex.fresh16 <= 4100 < start Ex.fresh16 + size Ex.fresh16)
    by (simpl; lia).
  assert (Hout : 4100 < 4096 \/ 4096 + 4 <= 4100) by (right; lia).
  split; [exact Hinv|]. split; [exact Hsz|]. split; [reflexivity|].
  split; [reflexivity|]. split; [exact Ha|]. split; [exact Hout|].
  destruct (arena_allocate None Ex.world_fresh16 4 4) as [f|[p w']] eqn:Hrun.
  - discriminate Hrun.
  - assert (p = 4096) as ->.
    { apply (f_equal returned) in Hrun. vm_compute in Hrun.
      now injection Hrun. }
    simpl. f_equal.
    exact (arena_allocate_fits_frame None Ex.world_fresh16 4 4 4096 w'
             Hinv Hsz eq_refl Hrun 4100 Ha Hout).
Defined.

(** X4. Two successive allocations that fit return regions in increasing
    address order that do not overlap; both lie inside the buffer, and
    the second call leaves every byte of the first region as it was. *)
Theorem successive_allocations_disjoint
  (r1 r2 : option Z) (w w1 w2 : world) (sz1 al1 sz2 al2 p1 p2 : Z) :
  invariant (arena w) -> 0 <= sz1 -> 0 <= sz2 ->
  fits (arena w) sz1 al1 = true ->
  arena_allocate r1 w sz1 al1 = Done (p1, w1) ->
  fits (arena w1) sz2 al2 = true ->
  arena_allocate r2 w1 sz2 al2 = Done (p2, w2) ->
  start (arena w) <= p1
  /\ p1 + sz1 <= p2
  /\ p2 + sz2 <= start (arena w) + size (arena w)
  /\ forall i, 0 <= i < sz1 -> heap w2 (p1 + i) = heap w1 (p1 + i).
Proof.
  intros Hinv Hsz1 Hsz2 Hfits1 Hrun1 Hfits2 Hrun2.
  destruct (fits_outcome r1 w sz1 al1 Hinv Hsz1 Hfits1)
    as (adj1 & _ & Hadj1 & Hfit1 & Hrun1' & Hptr1 & Harena1).
  assert (Hb1 : bump w adj1 sz1 = (p1, w1)) by congruence.
  rewrite Hb1 in Hptr1, Harena1. simpl in Hptr1, Harena1.
  pose proof (bump_invariant_fits w adj1 sz1 Hinv Hadj1 Hsz1 Hfit1) as Hinv1.
  rewrite <- Harena1 in Hinv1.
  destruct (fits_outcome r2 w1 sz2 al2 Hinv1 Hsz2 Hfits2)
    as (adj2 & _ & Hadj2 & Hfit2 & Hrun2' & Hptr2 & _).
  assert (Hb2 : bump w1 adj2 sz2 = (p2, w2)) by congruence.
  rewrite Hb2 in Hptr2. simpl in Hptr2.
  assert (Hw2 : w2 = snd (bump w1 adj2 sz2)) by (now rewrite Hb2).
  pose proof Hfit2 as Hfit2'. rewrite Harena1 in Hfit2', Hptr2.
  simpl in Hfit2', Hptr2.
  destruct Hinv as [(Hs & Hn & Hend) [Hlo Hhi]].
  split; [lia|]. split; [lia|]. split; [lia|].
  intros i Hi. rewrite Hw2.
  apply bump_frame; try assumption.
  - word_lia.
  - left. rewrite Harena1. simpl. lia.
Qed.

Lemma successive_allocations_disjoint_witness :
  invariant Ex.fresh16 /\ 0 <= 4 /\ 0 <= 8
  /\ fits Ex.fresh16 4 4 = true
  /\ fits (arena Ex.s1) 8 8 = true
  /\ returned (arena_allocate None Ex.world_fresh16 4 4) = Some 4096
  /\ returned (arena_allocate None Ex.s1 8 8) = Some 4104
  /\ 4096 + 4 <= 4104.
Proof.
  assert (Hinv : invariant Ex.fresh16).
  { unfold invariant, live, cursor_in_buffer; simpl. word_lia. }
  assert (H4 : 0 <= 4) by lia.
  assert (H8 : 0 <= 8) by lia.
  split; [exact Hinv|]. split; [exact H4|]. split; [exact H8|].
  split; [reflexivity|]. split; [reflexivity|].
  split; [reflexivity|]. split; [reflexivity|].
  destruct (arena_allocate None Ex.s1 8 8) as [f|[p2 w2]] eqn:Hrun2.
  - discriminate Hrun2.
  - assert (p2 = 4104) as ->.
    { apply (f_equal returned) in Hrun2. vm_compute in Hrun2.
      now injection Hrun2. }
    assert (Hrun1 : arena_allocate None Ex.world_fresh16 4 4
                    = Done (4096, Ex.s1)) by reflexivity.
    exact (proj1 (proj2 (successive_allocations_disjoint
                           None None Ex.world_fresh16 Ex.s1 w2 4 4 8 8 4096 4104
                           Hinv H4 H8 eq_refl Hrun1 eq_refl Hrun2))).
Defined.

(** ** Padding *)

(** X5. For every non-zero alignment, power of two or not, the pointer
    returned by an allocation that fits is the least multiple of the
    alignment at or above the cursor; the padding is zero exactly when
    the cursor is already a multiple (always so for alignment 1). *)
Theorem arena_allocate_least_aligned_address
  (r : option Z) (w : world) (sz al p : Z) (w' : world) :
  invariant (arena w) -> 0 <= sz -> 0 < al < Word.modulus ->
  fits (arena w) sz al = true ->
  arena_allocate r w sz al = Done (p, w') ->
  current (arena w) <= p < current (arena w) + al
  /\ p mod al = 0
  /\ (p = current (arena w) <-> current (arena w) mod al = 0)
  /\ forall q, current (arena w) <= q -> q mod al = 0 -> p <= q.
Proof.
  intros Hinv Hsz Hal Hfits Hrun.
  destruct (fits_outcome r w sz al Hinv Hsz Hfits)
    as (adj & Hadj & _ & _ & Hrun' & Hptr & _).
  assert (Hb : bump w adj sz = (p, w')) by congruence.
  rewrite Hb in Hptr. simpl in Hptr. subst p.
  destruct (adjustment_of_aligned _ _ _ Hal Hadj) as [Hadj_lt Hmod].
  split; [lia|]. split; [exact Hmod|]. split.
  - split; intros H.
    + assert (adj = 0) as -> by lia. now rewrite Z.add_0_r in Hmod.
    + apply Z.mod_divide in Hmod; [|lia]. apply Z.mod_divide in H; [|lia].
      destruct Hmod as [j Hj]. destruct H as [k Hk].
      assert (j = k) as -> by (destruct (Z.lt_trichotomy j k) as [|[|]]; nia).
      lia.
  - intros q Hq Hqmod.
    apply Z.mod_divide in Hmod; [|lia]. apply Z.mod_divide in Hqmod; [|lia].
    destruct Hmod as [j Hj]. destruct Hqmod as [k Hk].
    assert (j <= k) by (destruct (Z.le_gt_cases j k); [assumption|nia]).
    nia.
Qed.

Lemma arena_allocate_least_aligned_address_witness :
  invariant Ex.base4112 /\ 0 <= 4 /\ 0 < 24 < Word.modulus
  /\ fits Ex.base4112 4 24 = true
  /\ returned (arena_allocate None Ex.world4112 4 24) = Some 4128
  /\ 4128 mod 24 = 0.
Proof.
  assert (Hinv : invariant Ex.base4112).
  { unfold invariant, live, cursor_in_buffer; simpl. word_lia. }
  assert (Hsz : 0 <= 4) by lia.
  assert (Hal : 0 < 24 < Word.modulus) by word_lia.
  split; [exact Hinv|]. split; [exact Hsz|]. split; [exact Hal|].
  split; [reflexivity|]. split; [reflexivity|].
  destruct (arena_allocate None Ex.world4112 4 24) as [f|[p w']] eqn:Hrun.
  - discriminate Hrun.
  - assert (p = 4128) as ->.
    { apply (f_equal returned) in Hrun. vm_compute in Hrun.
      now injection Hrun. }
    exact (proj1 (proj2 (arena_allocate_least_aligned_address
                           None Ex.world4112 4 24 4128 w'
                           Hinv Hsz Hal eq_refl Hrun))).
Defined.

(** ** Growth *)

(** X7. When a successful [arena_grow] does not overflow the capacity,
    [arena_available] grows by exactly the additional size; a failed
    one leaves it as it was. *)
Theorem arena_grow_available (r : option Z) (w : world) (n : Z) :
  invariant (arena w) -> 0 <= n -> size (arena w) + n < Word.modulus ->
  arena_available (arena (snd (arena_grow r w n)))
  = match r with
    | Some _ => arena_available (arena w) + n
    | None => arena_available (arena w)
    end.
Proof.
  intros [(Hs & Hn & Hend) [Hlo Hhi]] Hn0 Hsum.
  destruct r as [p|]; [|reflexivity].
  unfold arena_available; simpl.
  rewrite (wrap_add_sub p (Word.sub (current (arena w)) (start (arena w))))
    by (unfold Word.sub; apply wrap_range).
  unwrap. lia.
Qed.

Lemma arena_grow_available_witness :
  invariant Ex.half16 /\ 0 <= 16 /\ size Ex.half16 + 16 < Word.modulus
  /\ arena_available (arena (snd (arena_grow (Some 8192) Ex.world_half16 16)))
     = arena_available Ex.half16 + 16.
Proof.
  assert (Hinv : invariant Ex.half16).
  { unfold invariant, live, cursor_in_buffer; simpl. word_lia. }
  assert (Hn : 0 <= 16) by lia.
  assert (Hsum : size Ex.half16 + 16 < Word.modulus) by (simpl; word_lia).
  split; [exact Hinv|]. split; [exact Hn|]. split; [exact Hsum|].
  exact (arena_grow_available (Some 8192) Ex.world_half16 16 Hinv Hn Hsum).
Defined.

(** X8. When an allocation triggers a growth step whose reallocation
    succeeds, the call returns NULL, and the bytes in use are carried to
    the new buffer: [arena_used] is unchanged and byte [i] of the used part
    reads at [new_base + i] what it read at [base + i]. *)
Theorem arena_allocate_growth_keeps_content
  (new_base : Z) (w : world) (sz al adj : Z) :
  invariant (arena w) ->
  adjustment_of (current (arena w)) al = Done adj ->
  needs_growth (arena w) adj sz = true ->
  size (arena w) + (size (arena w) * 2 + adj) < Word.modulus ->
  exists w',
    arena_allocate (Some new_base) w sz al = Done (NULL, w')
    /\ start (arena w') = new_base
    /\ arena_used (arena w') = arena_used (arena w)
    /\ forall i, 0 <= i < arena_used (arena w) ->
         heap w' (Word.add new_base i) = heap w (start (arena w) + i).
Proof.
  intros [Hlive Hcur] Hadj Hgrow Hsum.
  pose proof (adjustment_of_range _ _ _ Hadj) as Hrange.
  assert (Hn : 0 <= size (arena w)) by apply Hlive.
  assert (Hamount : Word.add (Word.mul (size (arena w)) 2) adj
                    = size (arena w) * 2 + adj) by (unwrap; reflexivity).
  rewrite (arena_allocate_cases _ w sz al adj Hadj), Hgrow, Hamount.
  destruct Hlive as (Hs & _ & Hend). destruct Hcur as [Hlo Hhi].
  assert (Hused : arena_used (arena w) = current (arena w) - start (arena w)).
  { unfold arena_used. unwrap. reflexivity. }
  eexists. split; [reflexivity|]. simpl.
  split; [reflexivity|]. split.
  - unfold arena_used at 1; simpl. fold (arena_used (arena w)).
    apply wrap_add_sub. rewrite Hused. word_lia.
  - intros i Hi. apply realloc_move_prefix.
    + unfold Word.add.
      rewrite (wrap_small (size (arena w) + (size (arena w) * 2 + adj)))
        by word_lia.
      lia.
    + word_lia.
    + word_lia.
Qed.

Lemma arena_allocate_growth_keeps_content_witness :
  invariant Ex.half16
  /\ adjustment_of (current Ex.half16) 1 = Done 0
  /\ needs_growth Ex.half16 0 20 = true
  /\ size Ex.half16 + (size Ex.half16 * 2 + 0) < Word.modulus
  /\ exists w',
       arena_allocate (Some 8192) Ex.world_half16 20 1 = Done (NULL, w')
       /\ arena_used (arena w') = arena_used Ex.half16
       /\ heap w' (Word.add 8192 7) = Ex.ones_at_4096 (4096 + 7).
Proof.
  assert (Hinv : invariant Ex.half16).
  { unfold invariant, live, cursor_in_buffer; simpl. word_lia. }
  assert (Hsum : size Ex.half16 + (size Ex.half16 * 2 + 0) < Word.modulus)
    by (simpl; word_lia).
  split; [exact Hinv|]. split; [reflexivity|]. split; [reflexivity|].
  split; [exact Hsum|].
  destruct (arena_allocate_growth_keeps_content 8192 Ex.world_half16 20 1 0
              Hinv eq_refl eq_refl Hsum) as (w' & Hrun & _ & Hused & Hbytes).
  exists w'. split; [exact Hrun|]. split; [exact Hused|].
  apply (Hbytes 7). vm_compute. split; [discriminate|reflexivity].
Defined.

Lemma adjustment_of_defined (cur al : Z) :
  al <> 0 -> exists adj, adjustment_of cur al = Done adj.
Proof.
  intros Hal. unfold adjustment_of, size_t_rem.
  apply Z.eqb_neq in Hal. rewrite Hal. simpl. eexists. reflexivity.
Qed.

(** X9. After an allocation has triggered a successful growth step and
    returned NULL, the same request, if it and its alignment together are
    at most twice the old capacity, is served by a second call: that call
    returns a non-null, aligned pointer whose region lies inside the new
    buffer. *)
Theorem arena_allocate_again_after_growth
  (new_base : Z) (r2 : option Z) (w : world) (sz al adj : Z) :
  invariant (arena w) -> 0 < al -> 0 <= sz ->
  adjustment_of (current (arena w)) al = Done adj ->
  needs_growth (arena w) adj sz = true ->
  block_ok new_base (size (arena w) + (size (arena w) * 2 + adj)) = true ->
  sz + al <= size (arena w) * 2 ->
  exists w1 p w2,
    arena_allocate (Some new_base) w sz al = Done (NULL, w1)
    /\ arena_allocate r2 w1 sz al = Done (p, w2)
    /\ p <> NULL
    /\ p mod al = 0
    /\ region_in_buffer (arena w1) p sz
    /\ start (arena w1) = new_base.
Proof.
  intros Hinv Hal Hsz Hadj Hgrow Hblock Hsmall.
  pose proof (adjustment_of_range _ _ _ Hadj) as Hrange.
  assert (Hn : 0 <= size (arena w)) by apply Hinv.
  pose proof Hblock as Hblock'.
  unfold block_ok in Hblock'. apply andb_prop in Hblock' as [Hp Hpend].
  apply Z.ltb_lt in Hp. apply Z.ltb_lt in Hpend.
  assert (Hamount : Word.add (Word.mul (size (arena w)) 2) adj
                    = size (arena w) * 2 + adj) by (unwrap; reflexivity).
  set (w1 := snd (arena_grow (Some new_base) w (size (arena w) * 2 + adj))).
  destruct (arena_grow_invariant new_base w (size (arena w) * 2 + adj)
              Hinv ltac:(lia) Hblock) as [Hinv1 Hsize1].
  fold w1 in Hinv1, Hsize1.
  assert (Hstart1 : start (arena w1) = new_base) by reflexivity.
  assert (Hcur1 : current (arena w1) = new_base + arena_used (arena w)).
  { subst w1. simpl. fold (arena_used (arena w)).
    pose proof (arena_used_range (arena w) Hinv) as [_ Hu].
    unfold Word.add. apply wrap_small. word_lia. }
  pose proof (arena_used_range (arena w) Hinv) as [_ Hused].
  destruct (adjustment_of_defined (current (arena w1)) al ltac:(lia))
    as [adj1 Hadj1].
  assert (Hal' : 0 < al < Word.modulus) by word_lia.
  destruct (adjustment_of_aligned _ _ _ Hal' Hadj1) as [Hadj1_lt Hmod1].
  assert (Hfits : fits (arena w1) sz al = true).
  { unfold fits. rewrite Hadj1. apply Z.leb_le. lia. }
  destruct (fits_outcome r2 w1 sz al Hinv1 Hsz Hfits)
    as (adj1' & Hadj1' & _ & Hfit1 & Hrun2 & Hptr & _).
  assert (adj1' = adj1) as -> by congruence.
  exists w1, (current (arena w1) + adj1), (snd (bump w1 adj1 sz)).
  split.
  { rewrite (arena_allocate_cases _ w sz al adj Hadj), Hgrow, Hamount.
    reflexivity. }
  split.
  { rewrite Hrun2, <- Hptr. now destruct (bump w1 adj1 sz). }
  split; [unfold NULL; lia|]. split; [exact Hmod1|].
  split; [unfold region_in_buffer; lia|exact Hstart1].
Qed.

Lemma arena_allocate_again_after_growth_witness :
  invariant Ex.half16 /\ 0 < 1 /\ 0 <= 20
  /\ adjustment_of (current Ex.half16) 1 = Done 0
  /\ needs_growth Ex.half16 0 20 = true
  /\ block_ok 8192 (size Ex.half16 + (size Ex.half16 * 2 + 0)) = true
  /\ 20 + 1 <= size Ex.half16 * 2
  /\ exists w1 p w2,
       arena_allocate (Some 8192) Ex.world_half16 20 1 = Done (NULL, w1)
       /\ arena_allocate None w1 20 1 = Done (p, w2)
       /\ p <> NULL
       /\ region_in_buffer (arena w1) p 20.
Proof.
  assert (Hinv : invariant Ex.half16).
  { unfold invariant, live, cursor_in_buffer; simpl. word_lia. }
  assert (Hal : 0 < 1) by lia.
  assert (Hsz : 0 <= 20) by lia.
  assert (Hsmall : 20 + 1 <= size Ex.half16 * 2) by (simpl; lia).
  split; [exact Hinv|]. split; [exact Hal|]. split; [exact Hsz|].
  split; [reflexivity|]. split; [reflexivity|]. split; [reflexivity|].
  split; [exact Hsmall|].
  destruct (arena_allocate_again_after_growth 8192 None Ex.world_half16 20 1 0
              Hinv Hal Hsz eq_refl eq_refl eq_refl Hsmall)
    as (w1 & p & w2 & Hrun1 & Hrun2 & Hp & _ & Hregion & _).
  exists w1, p, w2. repeat split; assumption || apply Hregion.
Defined.



(** X11. The fit test is computed with wrap-around and does not detect a
    request that reaches the end of the address space: on an arena that
    satisfies the invariant, with alignment 1 and
    [2^64 - cursor <= sz < 2^64], the padding is 0, the sum
    [cursor + padding + size] wraps to [cursor + sz - 2^64], below the
    cursor, and the test [cursor + padding + size > base + capacity] is
    false, so that no growth step is taken although the region of [sz]
    bytes at the cursor is not inside the buffer. *)
Theorem oversized_request_passes_fit_test (w : world) (sz : Z) :
  invariant (arena w) ->
  Word.modulus - current (arena w) <= sz < Word.modulus ->
  adjustment_of (current (arena w)) 1 = Done 0
  /\ Word.add (Word.add (current (arena w)) 0) sz
     = current (arena w) + sz - Word.modulus
  /\ current (arena w) + sz - Word.modulus < current (arena w)
  /\ needs_growth (arena w) 0 sz = false
  /\ ~ region_in_buffer (arena w) (current (arena w)) sz.
Proof.
  intros [(Hs & Hn & Hend) [Hlo Hhi]] Hsz.
  assert (Hadj : adjustment_of (current (arena w)) 1 = Done 0).
  { unfold adjustment_of, size_t_rem; simpl. rewrite Z.mod_1_r. reflexivity. }
  assert (Hwrap : Word.wrap (current (arena w) + sz)
                  = current (arena w) + sz - Word.modulus).
  { unfold Word.wrap. symmetry.
    apply (Z.mod_unique _ _ 1); [left; word_lia|ring]. }
  assert (Hcur0 : Word.add (current (arena w)) 0 = current (arena w)).
  { unfold Word.add. rewrite Z.add_0_r. apply wrap_small. word_lia. }
  assert (Hsum : Word.add (Word.add (current (arena w)) 0) sz
                 = current (arena w) + sz - Word.modulus).
  { rewrite Hcur0. exact Hwrap. }
  split; [exact Hadj|]. split; [exact Hsum|]. split; [lia|]. split.
  - unfold needs_growth. rewrite Hsum.
    apply Z.ltb_ge. unfold Word.add. rewrite wrap_small by word_lia. lia.
  - unfold region_in_buffer. word_lia.
Qed.

Lemma oversized_request_passes_fit_test_witness :
  invariant Ex.half16
  /\ Word.modulus - current Ex.half16 <= Word.modulus - 1 < Word.modulus
  /\ needs_growth Ex.half16 0 (Word.modulus - 1) = false.
Proof.
  assert (Hinv : invariant Ex.half16).
  { unfold invariant, live, cursor_in_buffer; simpl. word_lia. }
  assert (Hsz : Word.modulus - current Ex.half16
                <= Word.modulus - 1 < Word.modulus) by (simpl; word_lia).
  split; [exact Hinv|]. split; [exact Hsz|].
  exact (proj1 (proj2 (proj2 (proj2
           (oversized_request_passes_fit_test Ex.world_half16
              (Word.modulus - 1) Hinv Hsz))))).
Defined.

(** ** Utilization without capacity *)

(** X12. On an arena with capacity 0 and nothing used (what
    [arena_new(0)] makes), [arena_utilization] divides zero by zero: the
    result is NaN, not a number between 0 and 100. *)
Theorem arena_utilization_zero_capacity (a : Arena) :
  arena_used a = 0 -> size a = 0 -> arena_utilization a = S754_nan.
Proof.
  intros Hused Hsize. unfold arena_utilization. rewrite Hused, Hsize.
  reflexivity.
Qed.

Lemma arena_utilization_zero_capacity_witness :
  arena_new (Some Ex.self) (Some 4096) 0 = Some Ex.empty0
  /\ arena_used Ex.empty0 = 0 /\ size Ex.empty0 = 0
  /\ arena_utilization Ex.empty0 = S754_nan.
Proof.
  split; [reflexivity|]. split; [reflexivity|]. split; [reflexivity|].
  exact (arena_utilization_zero_capacity Ex.empty0 eq_refl eq_refl).
Defined.

(** ** Construction *)

(** X13. When both allocations of [arena_new] succeed and the buffer is a
    block of the address space, the new arena satisfies the invariant, its
    cursor is at the base of the buffer, nothing is used and the whole
    initial size is available. *)
Theorem arena_new_fresh (r_arena : option Z) (b n : Z) (a : Arena) :
  arena_new r_arena (Some b) n = Some a ->
  block_ok b n = true -> 0 <= n ->
  invariant a
  /\ start a = b /\ current a = b /\ size a = n
  /\ arena_used a = 0
  /\ arena_available a = n.
Proof.
  intros Hnew Hblock Hn. unfold arena_new in Hnew.
  destruct r_arena as [q|]; [|discriminate].
  injection Hnew as <-.
  unfold block_ok in Hblock. apply andb_prop in Hblock as [Hb Hend].
  apply Z.ltb_lt in Hb. apply Z.ltb_lt in Hend.
  assert (Hz : Word.sub b b = 0).
  { unfold Word.sub. rewrite Z.sub_diag. reflexivity. }
  assert (Hnz : Word.sub n 0 = n).
  { unfold Word.sub. rewrite Z.sub_0_r. apply wrap_small. word_lia. }
  unfold invariant, live, cursor_in_buffer, arena_used, arena_available; simpl.
  rewrite Hz, Hnz. lia.
Qed.

Lemma arena_new_fresh_witness :
  arena_new (Some Ex.self) (Some 4096) 16 = Some Ex.fresh16
  /\ block_ok 4096 16 = true /\ 0 <= 16
  /\ arena_used Ex.fresh16 = 0 /\ arena_available Ex.fresh16 = 16.
Proof.
  assert (Hn : 0 <= 16) by lia.
  split; [reflexivity|]. split; [reflexivity|]. split; [exact Hn|].
  exact (proj2 (proj2 (proj2 (proj2
           (arena_new_fresh (Some Ex.self) 4096 16 Ex.fresh16
              eq_refl eq_refl Hn))))).
Defined.

(** ** Ownership of the record and the buffer *)

Lemma is_allocated_head (p : Z) (bs : blocks) : is_allocated p (p :: bs) = true.
Proof. unfold is_allocated; simpl. now rewrite Z.eqb_refl. Qed.

Lemma c_free_head (p : Z) (bs : blocks) :
  ~ In p bs -> c_free p (p :: bs) = Some bs.
Proof.
  intros Hnot. unfold c_free. rewrite is_allocated_head.
  now rewrite remove_cons, notin_remove.
Qed.





(** X14. [arena_new] leaks nothing when it fails: if it returns NULL,
    whichever of its two allocations failed, the blocks in use are exactly
    those before the call (the record is freed when the buffer cannot be
    allocated). *)
Theorem arena_new_failure_frees_record
  (r_arena r_buf : option Z) (n : Z) (others : blocks) :
  (forall s, r_arena = Some s -> ~ In s others) ->
  arena_new r_arena r_buf n = None ->
  arena_new_blocks r_arena r_buf others = Some others.
Proof.
  intros Hfresh Hnew. unfold arena_new in Hnew. unfold arena_new_blocks.
  destruct r_arena as [s|]; [|reflexivity].
  destruct r_buf as [b|]; [discriminate|].
  apply c_free_head. now apply Hfresh.
Qed.

Lemma arena_new_failure_frees_record_witness :
  (forall s, Some Ex.self = Some s -> ~ In s Ex.others)
  /\ arena_new (Some Ex.self) None 16 = None
  /\ arena_new_blocks (Some Ex.self) None Ex.others = Some Ex.others.
Proof.
  assert (Hfresh : forall s, Some Ex.self = Some s -> ~ In s Ex.others).
  { intros s Hs. injection Hs as <-. simpl. intros [H|[]]. discriminate H. }
  split; [exact Hfresh|]. split; [reflexivity|].
  exact (arena_new_failure_frees_record (Some Ex.self) None 16 Ex.others
           Hfresh eq_refl).
Defined.



(** ** Reuse after a reset *)

(** X16. After [arena_reset] the whole capacity can be handed out again:
    a request of at most [size] bytes with alignment 1 is served at the
    base of the buffer without growth, [arena_used] becomes the requested
    size, and the bytes handed out, whatever they held before the reset,
    read as zero. *)
Theorem arena_reset_then_allocate (r : option Z) (w : world) (sz : Z) :
  invariant (arena w) -> 0 <= sz <= size (arena w) ->
  exists w',
    arena_allocate r (arena_reset w) sz 1 = Done (start (arena w), w')
    /\ start (arena w') = start (arena w)
    /\ size (arena w') = size (arena w)
    /\ arena_used (arena w') = sz
    /\ forall i, 0 <= i < sz -> heap w' (start (arena w) + i) = Byte.x00.
Proof.
  intros Hinv [Hsz0 Hsz].
  assert (Hadj : adjustment_of (start (arena w)) 1 = Done 0).
  { unfold adjustment_of, size_t_rem; simpl. rewrite Z.mod_1_r. reflexivity. }
  assert (Hinv' : invariant (arena (arena_reset w))).
  { destruct Hinv as [Hlive [Hlo Hhi]].
    unfold invariant, live, cursor_in_buffer in *; simpl. lia. }
  assert (Hfits : fits (arena (arena_reset w)) sz 1 = true).
  { unfold fits.
    change (current (arena (arena_reset w))) with (start (arena w)).
    rewrite Hadj. apply Z.leb_le. simpl. lia. }
  destruct (fits_outcome r (arena_reset w) sz 1 Hinv' Hsz0 Hfits)
    as (adj & Hadj' & _ & _ & Hrun & Hptr & Harena).
  change (current (arena (arena_reset w))) with (start (arena w))
    in Hadj', Hptr, Harena.
  assert (adj = 0) as -> by congruence.
  change (start (arena (arena_reset w))) with (start (arena w)) in Harena.
  change (size (arena (arena_reset w))) with (size (arena w)) in Harena.
  rewrite !Z.add_0_r in Hptr, Harena.
  destruct Hinv as [(Hs & Hn & Hend) _].
  exists (snd (bump (arena_reset w) 0 sz)).
  split.
  { rewrite Hrun. f_equal.
    rewrite (surjective_pairing (bump (arena_reset w) 0 sz)).
    now rewrite Hptr. }
  rewrite Harena. simpl.
  split; [reflexivity|]. split; [reflexivity|]. split.
  - unfold arena_used, Word.sub; simpl.
    replace (start (arena w) + sz - start (arena w)) with sz by ring.
    apply wrap_small. word_lia.
  - intros i Hi.
    replace (Word.add (start (arena w)) 0) with (start (arena w))
      by (unfold Word.add; rewrite Z.add_0_r; symmetry; apply wrap_small;
          word_lia).
    replace (start (arena w) + i) with (Word.add (start (arena w)) i)
      by (unfold Word.add; apply wrap_small; word_lia).
    now apply memset_zero_inside.
Qed.

Lemma arena_reset_then_allocate_witness :
  invariant Ex.full16 /\ 0 <= 16 <= size Ex.full16
  /\ Ex.ones_at_4096 (4096 + 15) = Byte.x01
  /\ exists w',
       arena_allocate None (arena_reset Ex.world_full16) 16 1
       = Done (4096, w')
       /\ arena_used (arena w') = 16
       /\ heap w' (4096 + 15) = Byte.x00.
Proof.
  assert (Hinv : invariant Ex.full16).
  { unfold invariant, live, cursor_in_buffer; simpl. word_lia. }
  assert (Hsz : 0 <= 16 <= size Ex.full16) by (simpl; lia).
  split; [exact Hinv|]. split; [exact Hsz|]. split; [reflexivity|].
  destruct (arena_reset_then_allocate None Ex.world_full16 16 Hinv Hsz)
    as (w' & Hrun & _ & _ & Hused & Hzero).
  exists w'. split; [exact Hrun|]. split; [exact Hused|].
  apply (Hzero 15). lia.
Defined.

(** ** The cursor never moves back *)

(** X17. Apart from [arena_reset], no operation in its domain (no
    overflow, no failed growth step inside an allocation) lowers
    [arena_used]: a direct growth and an allocation that grows keep it,
    and an allocation that fits raises it by padding plus size. *)
Theorem arena_used_monotone (o : op) (w w' : world) :
  invariant (arena w) -> o <> Reset ->
  in_domain o w = true -> step o w = Done w' ->
  arena_used (arena w) <= arena_used (arena w').
Proof.
  intros Hinv Hnr Hdom Hstep.
  pose proof (arena_used_range (arena w) Hinv) as [Hused Hused_le].
  assert (Hgrown : forall p,
             Word.sub (Word.add p (Word.sub (current (arena w))
                                            (start (arena w)))) p
             = Word.sub (current (arena w)) (start (arena w))).
  { intros p. apply wrap_add_sub. unfold Word.sub. apply wrap_range. }
  destruct o as [r sz al|r n|]; simpl in *; [| |now elim Hnr].
  - destruct (adjustment_of (current (arena w)) al) as [f|adj] eqn:Hadj;
      [discriminate|].
    pose proof (adjustment_of_range _ _ _ Hadj) as Hrange.
    rewrite (arena_allocate_cases r w sz al adj Hadj) in Hstep.
    repeat (apply andb_prop in Hdom as [Hdom ?]).
    repeat match goal with
           | H : (_ <? _) = true |- _ => apply Z.ltb_lt in H
           | H : (_ <=? _) = true |- _ => apply Z.leb_le in H
           end.
    destruct (needs_growth (arena w) adj sz) eqn:Hgrow.
    + destruct r as [p|]; [|discriminate].
      simpl in Hstep. injection Hstep as <-.
      unfold arena_used; simpl. rewrite (Hgrown p). lia.
    + simpl in Hstep. injection Hstep as <-.
      destruct Hinv as [(Hs & Hn & Hend) [Hlo Hhi]].
      unfold arena_used in *; simpl. unwrap. lia.
  - injection Hstep as <-. destruct r as [p|].
    + unfold arena_used; simpl. rewrite (Hgrown p). lia.
    + simpl. lia.
Qed.

Lemma arena_used_monotone_witness :
  invariant Ex.fresh16 /\ Allocate None 4 4 <> Reset
  /\ in_domain (Allocate None 4 4) Ex.world_fresh16 = true
  /\ step (Allocate None 4 4) Ex.world_fresh16 = Done Ex.s1
  /\ arena_used Ex.fresh16 <= arena_used (arena Ex.s1).
Proof.
  assert (Hinv : invariant Ex.fresh16).
  { unfold invariant, live, cursor_in_buffer; simpl. word_lia. }
  assert (Hnr : Allocate None 4 4 <> Reset) by discriminate.
  split; [exact Hinv|]. split; [exact Hnr|]. split; [reflexivity|].
  split; [reflexivity|].
  exact (arena_used_monotone (Allocate None 4 4) Ex.world_fresh16 Ex.s1
           Hinv Hnr eq_refl eq_refl).
Defined.
